(** * Design-pattern examples: a shallow embedding

  The repository's TypeScript examples that carry state or a loop:

  - Memento ([TextEditorMemento], [TextEditor], [MyHistory] and the client
    [testTextEditorMemento]);
  - Mediator ([Component] and its three subclasses,
    [ConcreteHomeAutomationMediator], [testHomeAutomationSystem]);
  - Singleton ([Logger], [useLogger]);
  - Observer (the subject [WeatherData]);
  - Iterator ([Song], [Playlist], [PlaylistIterator], [iterateSongs]);
  - Proxy ([RealImage], [ImageProxy]);
  - Decorator (the [Coffee] classes).

  Objects that the code creates dynamically and shares by reference
  (memento objects, components, the logger) are identified by their place
  in an object table; [this] is passed explicitly and every method returns
  the updated receiver.  [console.log] appends a line to a list of
  strings. *)

From Stdlib Require Import ZArith Lia.
From stdpp Require Import base option list strings.

Local Open Scope Z_scope.

(** ** JavaScript conventions shared by the examples *)

Module JS.

(** A method call either returns a value or throws.  None of the modelled
    methods has a [throw]; the second constructor is there so that
    "does not throw" is a statement and not a convention. *)
Inductive outcome (A : Type) : Type :=
| Returned (v : A)
| Thrown (error : string).
Arguments Returned {A} v.
Arguments Thrown {A} error.

(** [arr[index]] for an integer [index]: an array has own properties only
    for [0 .. length-1], every other property read is [undefined]. *)
Definition array_get {A : Type} (arr : list A) (index : Z) : option A :=
  if index <? 0 then None else arr !! Z.to_nat index.

(** [arr.push(x)] *)
Definition push {A : Type} (arr : list A) (x : A) : list A := arr ++ [x].

(** The console: lines printed so far, oldest first. *)
Definition console := list string.
Definition console_log (out : console) (line : string) : console :=
  out ++ [line].

(** [arr.indexOf(x)]: the first index that holds [x] (compared with
    [===]), or [-1] when there is none. *)
Fixpoint indexOf {A : Type} `{EqDecision A} (arr : list A) (x : A) : Z :=
  match arr with
  | [] => -1
  | y :: rest =>
      if bool_decide (y = x) then 0
      else
        let i := indexOf rest x in
        if i =? -1 then -1 else i + 1
  end.

(** [arr.splice(start, deleteCount)] for [0 <= start] and
    [0 <= deleteCount]: the array without the [deleteCount] elements from
    index [start] on.  (The call returns the removed elements; no caller
    here uses them.) *)
Definition splice {A : Type} (arr : list A) (start deleteCount : Z)
  : list A :=
  take (Z.to_nat start) arr ++ drop (Z.to_nat (start + deleteCount)) arr.

End JS.

(** ** Memento *)

Module Memento.
Import JS.

(** A reference to a memento object: its address in the object table. *)
Definition ref := nat.

(** [class TextEditorMemento]: one private field, written by the
    constructor only. *)
Record TextEditorMemento := { state : string }.

(** The memento objects allocated so far; [new] appends. *)
Definition objects := list TextEditorMemento.

Definition TextEditorMemento_new (st : string) (objs : objects)
  : ref * objects :=
  (length objs, objs ++ [{| state := st |}]).

(** [memento.getState()]; [None] only for an address never allocated. *)
Definition getState (objs : objects) (memento : ref) : option string :=
  state <$> objs !! memento.

(** [class TextEditor] *)
Record TextEditor := { text : string }.

Definition TextEditor_new : TextEditor := {| text := "" |}.

Definition getText (this : TextEditor) : string := text this.

Definition setText (this : TextEditor) (t : string) : TextEditor :=
  {| text := t |}.

Definition createMemento (this : TextEditor) (objs : objects)
  : ref * objects :=
  TextEditorMemento_new (text this) objs.

Definition restoreFromMemento (this : TextEditor) (objs : objects)
    (memento : ref) : option TextEditor :=
  st ← getState objs memento; Some {| text := st |}.

(** [class MyHistory]: an array of references, initially empty. *)
Record MyHistory := { mementos : list ref }.

Definition MyHistory_new : MyHistory := {| mementos := [] |}.

Definition addMemento (this : MyHistory) (memento : ref) : MyHistory :=
  {| mementos := push (mementos this) memento |}.

Definition getMemento (this : MyHistory) (index : Z) : option ref :=
  array_get (mementos this) index.

(** Number of stored mementos, as an integer. *)
Definition size (this : MyHistory) : Z := Z.of_nat (length (mementos this)).

(** *** The public interface of [MyHistory] as calls *)

Inductive call :=
| AddMemento (memento : ref)
| GetMemento (index : Z).

Inductive value :=
| VVoid
| VUndefined
| VMemento (memento : ref).

Definition of_lookup (r : option ref) : value :=
  match r with
  | Some m => VMemento m
  | None => VUndefined
  end.

(** One call on a history: its outcome and the history afterwards. *)
Definition invoke (this : MyHistory) (c : call)
  : outcome value * MyHistory :=
  match c with
  | AddMemento m => (Returned VVoid, addMemento this m)
  | GetMemento i => (Returned (of_lookup (getMemento this i)), this)
  end.

(** The history after [addMemento(s1); ...; addMemento(sn)]. *)
Definition add_all (this : MyHistory) (ss : list ref) : MyHistory :=
  foldl addMemento this ss.

(** *** Any client of the three classes

    A session holds the memento objects, one editor and one history; an
    action is one public method call on one of them. *)

Record session := {
  objs : objects;
  editor : TextEditor;
  history : MyHistory
}.

Inductive action :=
| SetText (t : string)
| GetText
| CreateMemento
| RestoreFromMemento (memento : ref)
| GetState (memento : ref)
| History (c : call).

(** [None]: the action names an address that was never allocated (no
    TypeScript client can do that). *)
Definition perform (s : session) (a : action) : option session :=
  match a with
  | SetText t =>
      Some {| objs := objs s; editor := setText (editor s) t;
              history := history s |}
  | GetText => Some s
  | CreateMemento =>
      let '(_, objs') := createMemento (editor s) (objs s) in
      Some {| objs := objs'; editor := editor s; history := history s |}
  | RestoreFromMemento m =>
      e ← restoreFromMemento (editor s) (objs s) m;
      Some {| objs := objs s; editor := e; history := history s |}
  | GetState m => _ ← getState (objs s) m; Some s
  | History c =>
      Some {| objs := objs s; editor := editor s;
              history := snd (invoke (history s) c) |}
  end.

Fixpoint perform_all (s : session) (acts : list action) : option session :=
  match acts with
  | [] => Some s
  | a :: acts' => s' ← perform s a; perform_all s' acts'
  end.

(** *** The client: [testTextEditorMemento] *)

Definition testTextEditorMemento (out : console) : option console :=
  let objs : objects := [] in
  let textEditor := TextEditor_new in
  let history := MyHistory_new in
  let textEditor := setText textEditor "Hello, " in
  let '(m0, objs) := createMemento textEditor objs in
  let history := addMemento history m0 in
  let textEditor := setText textEditor "Hello, World!" in
  let '(m1, objs) := createMemento textEditor objs in
  let history := addMemento history m1 in
  match getMemento history 0 with
  | Some previousMemento =>
      textEditor ← restoreFromMemento textEditor objs previousMemento;
      Some (console_log out ("Restored state: " +:+ getText textEditor))
  | None => Some (console_log out "No previous state available.")
  end.

(** *** The client's steps, for any text and any index

    [save] is lines 66-67 (and again 70-71) of [testTextEditorMemento]: set
    the text, then store a memento of it.  [restore] is lines 74-80 with the
    index as a parameter. *)

Definition session_new : session :=
  {| objs := []; editor := TextEditor_new; history := MyHistory_new |}.

Definition save (s : session) (t : string) : session :=
  let textEditor := setText (editor s) t in
  let '(m, objs') := createMemento textEditor (objs s) in
  {| objs := objs'; editor := textEditor;
     history := addMemento (history s) m |}.

Definition restore (s : session) (index : Z) (out : console)
  : option (session * console) :=
  match getMemento (history s) index with
  | Some previousMemento =>
      textEditor ← restoreFromMemento (editor s) (objs s) previousMemento;
      Some ({| objs := objs s; editor := textEditor; history := history s |},
            console_log out ("Restored state: " +:+ getText textEditor))
  | None => Some (s, console_log out "No previous state available.")
  end.

(** *** A cursor kept by the caller

    Modelled from the spec: the cursor [position] and the operations
    [save], [undo], [redo], [current] and [clear] of the spec's History
    Manager, which the repository does not have ([MyHistory] has
    [addMemento] and [getMemento] only and stores no cursor).  The sequence
    is the source's [MyHistory], written with [addMemento] and read with
    [getMemento]; the cursor and its guards follow the spec's words:
    [position] is [-1] for the empty history; [save] appends and "sets
    cursor to the new last index"; [undo] fails with [NoHistoryError] and
    leaves the cursor unchanged "if position <= 0", otherwise "decrements
    position by 1 and returns the snapshot now at position"; [redo] fails
    "if position >= length-1 or history is empty", otherwise increments and
    returns likewise; [current] "returns the snapshot at position, or an
    empty result"; [clear] "resets to the empty state", for which the caller
    has to take a new [MyHistory]. *)







(** A session as TypeScript clients build them: the history holds
    references to allocated memento objects only; and an action such a
    client can make: it passes allocated mementos only. *)
Definition well_formed (s : session) : Prop :=
  forall m, m ∈ mementos (history s) -> (m < length (objs s))%nat.

Definition valid_action (s : session) (a : action) : Prop :=
  match a with
  | RestoreFromMemento m | GetState m | History (AddMemento m) =>
      (m < length (objs s))%nat
  | SetText _ | GetText | CreateMemento | History (GetMemento _) => True
  end.

End Memento.


(** ** Mediator *)

Module Mediator.
Import JS.

(** The three concrete subclasses of [Component]. *)
Inductive ComponentClass := Light | Thermostat | SecurityCamera.

(** A component object: its address and its class.  Two objects are the same
    object ([===]) exactly when they are the same record.  The field
    [mediator] is not stored: the methods that use it take the mediator as
    an argument. *)
Record Component := { addr : nat; cls : ComponentClass }.

#[global] Instance ComponentClass_eq_dec : EqDecision ComponentClass.
Proof. solve_decision. Defined.

#[global] Instance Component_eq_dec : EqDecision Component.
Proof. solve_decision. Defined.

(** [sender.constructor.name] *)
Definition constructor_name (c : Component) : string :=
  match cls c with
  | Light => "Light"
  | Thermostat => "Thermostat"
  | SecurityCamera => "SecurityCamera"
  end.

(** [receiveMessage], by class: one console line. *)
Definition receiveMessage (this : Component) (message : string)
    (out : console) : console :=
  match cls this with
  | Light => console_log out ("Light received message: " +:+ message)
  | Thermostat =>
      console_log out ("Thermostat received message: " +:+ message)
  | SecurityCamera =>
      console_log out ("Security Camera received message: " +:+ message)
  end.

(** What a send does: the [receiveMessage] calls made so far (receiver and
    argument, oldest first) and the console. *)
Record effects := {
  deliveries : list (Component * string);
  output : console
}.

Definition no_effects : effects := {| deliveries := []; output := [] |}.

Definition deliver (component : Component) (message : string) (fx : effects)
  : effects :=
  {| deliveries := deliveries fx ++ [(component, message)];
     output := receiveMessage component message (output fx) |}.

Definition print (line : string) (fx : effects) : effects :=
  {| deliveries := deliveries fx; output := console_log (output fx) line |}.

(** [class ConcreteHomeAutomationMediator] *)
Record ConcreteHomeAutomationMediator := { components : list Component }.

Definition ConcreteHomeAutomationMediator_new
  : ConcreteHomeAutomationMediator := {| components := [] |}.

Definition addComponent (this : ConcreteHomeAutomationMediator)
    (component : Component) : ConcreteHomeAutomationMediator :=
  {| components := push (components this) component |}.

(** The body of [for (const component of this.components)]. *)
Fixpoint sendMessage_loop (cs : list Component) (sender : Component)
    (message : string) (fx : effects) : effects :=
  match cs with
  | [] => fx
  | component :: rest =>
      let fx' :=
        if bool_decide (component <> sender)
        then deliver component
               (constructor_name sender +:+ ": " +:+ message) fx
        else fx in
      sendMessage_loop rest sender message fx'
  end.

Definition sendMessage (this : ConcreteHomeAutomationMediator)
    (sender : Component) (message : string) (fx : effects) : effects :=
  sendMessage_loop (components this) sender message fx.

(** [Component.sendMessage]: forwards to the mediator with [this] as the
    sender. *)
Definition Component_sendMessage (mediator : ConcreteHomeAutomationMediator)
    (this : Component) (message : string) (fx : effects) : effects :=
  sendMessage mediator this message fx.

Definition turnOn mediator (this : Component) (fx : effects) : effects :=
  Component_sendMessage mediator this "Light turned on"
    (print "Light is ON" fx).

Definition turnOff mediator (this : Component) (fx : effects) : effects :=
  Component_sendMessage mediator this "Light turned off"
    (print "Light is OFF" fx).

Definition increaseTemperature mediator (this : Component) (fx : effects)
  : effects :=
  Component_sendMessage mediator this "Temperature increased"
    (print "Thermostat temperature increased" fx).

Definition decreaseTemperature mediator (this : Component) (fx : effects)
  : effects :=
  Component_sendMessage mediator this "Temperature decreased"
    (print "Thermostat temperature decreased" fx).

Definition startRecording mediator (this : Component) (fx : effects)
  : effects :=
  Component_sendMessage mediator this "Recording started"
    (print "Security Camera started recording" fx).

Definition stopRecording mediator (this : Component) (fx : effects)
  : effects :=
  Component_sendMessage mediator this "Recording stopped"
    (print "Security Camera stopped recording" fx).

(** The mediator after [addComponent(c1); ...; addComponent(cn)]. *)
Definition register_all (this : ConcreteHomeAutomationMediator)
    (cs : list Component) : ConcreteHomeAutomationMediator :=
  foldl addComponent this cs.

(** How many of the recorded [receiveMessage] calls went to [c]. *)
Definition received_by (c : Component) (fx : effects) : nat :=
  length (filter (fun d => d.1 = c) (deliveries fx)).

(** How many times [c] was registered. *)
Definition registrations (c : Component)
    (this : ConcreteHomeAutomationMediator) : nat :=
  length (filter (fun x => x = c) (components this)).

(** The client: [testHomeAutomationSystem]. *)
Definition the_light : Component := {| addr := 0; cls := Light |}.
Definition the_thermostat : Component := {| addr := 1; cls := Thermostat |}.
Definition the_camera : Component := {| addr := 2; cls := SecurityCamera |}.

Definition testHomeAutomationSystem (fx : effects) : effects :=
  let mediator := ConcreteHomeAutomationMediator_new in
  let light := the_light in
  let thermostat := the_thermostat in
  let securityCamera := the_camera in
  let mediator := addComponent mediator light in
  let mediator := addComponent mediator thermostat in
  let mediator := addComponent mediator securityCamera in
  let fx := turnOn mediator light fx in
  let fx := increaseTemperature mediator thermostat fx in
  startRecording mediator securityCamera fx.

(** The console line that [receiveMessage] prints, by class of receiver. *)
Definition received_line (this : Component) (message : string) : string :=
  match cls this with
  | Light => "Light received message: " +:+ message
  | Thermostat => "Thermostat received message: " +:+ message
  | SecurityCamera => "Security Camera received message: " +:+ message
  end.

End Mediator.

(** ** Singleton *)

Module Singleton.
Import JS.

(** A reference to a [Logger] object: the number of loggers constructed
    before it. *)
Definition Logger_ref := nat.

(** The class [Logger] as a whole: its static field [instance] and the
    number of times its constructor has run. *)
Record Logger_class := {
  instance : option Logger_ref;
  constructed : nat
}.

(** Before any call: [instance = null] and nothing constructed. *)
Definition Logger_initial : Logger_class :=
  {| instance := None; constructed := 0%nat |}.

(** [new Logger()] *)
Definition Logger_new (st : Logger_class) : Logger_ref * Logger_class :=
  (constructed st,
   {| instance := instance st; constructed := S (constructed st) |}).

(** [Logger.getInstance()] *)
Definition getInstance (st : Logger_class) : Logger_ref * Logger_class :=
  match instance st with
  | None =>
      let '(l, st') := Logger_new st in
      (l, {| instance := Some l; constructed := constructed st' |})
  | Some l => (l, st)
  end.

(** [logger.log(message)] *)
Definition log (this : Logger_ref) (message : string) (out : console)
  : console :=
  console_log out ("[LOG] " +:+ message).

(** What client code can do with the class: the constructor is private, so
    only [getInstance] and [log] remain. *)
Inductive step :=
| GetInstance
| Log (this : Logger_ref) (message : string).

Record execution := {
  class_state : Logger_class;
  returned : list Logger_ref;  (* what the [getInstance] calls returned *)
  out : console
}.

Definition execution_start : execution :=
  {| class_state := Logger_initial; returned := []; out := [] |}.

Definition do_step (e : execution) (s : step) : execution :=
  match s with
  | GetInstance =>
      let '(l, st) := getInstance (class_state e) in
      {| class_state := st; returned := returned e ++ [l]; out := out e |}
  | Log this message =>
      {| class_state := class_state e; returned := returned e;
         out := log this message (out e) |}
  end.

Definition execute (steps : list step) : execution :=
  foldl do_step execution_start steps.

(** The client: [useLogger]. *)
Definition useLogger (st : Logger_class) (out : console)
  : Logger_class * console :=
  let '(logger, st) := getInstance st in
  let out := log logger "This message will be logged." out in
  let '(anotherLogger, st) := getInstance st in
  let out := log anotherLogger "Another log entry." out in
  (st, out).

(** Before the first [getInstance]: nothing constructed, nothing returned.
    After it: one logger constructed, and every result so far is it. *)
Definition at_most_one (e : execution) : Prop :=
  match instance (class_state e) with
  | None => constructed (class_state e) = 0%nat /\ returned e = []
  | Some l =>
      constructed (class_state e) = 1%nat /\
      forall x, x ∈ returned e -> x = l
  end.

(** The lines that the [log] calls of a client print, in order. *)
Fixpoint log_lines (steps : list step) : console :=
  match steps with
  | [] => []
  | GetInstance :: rest => log_lines rest
  | Log _ message :: rest => ("[LOG] " +:+ message) :: log_lines rest
  end.

End Singleton.

(** ** Observer: the subject *)

Module Observer.
Import JS.

Section Subject.

(** The subject stores the three measurements and passes them on, and
    compares observers by identity only: the type of measurements and the
    type of references to observer objects stay abstract.  The [update]
    methods of the three display classes have no access to the subject. *)
Context {number : Type} (zero : number).
Context {Obs : Type} `{EqDecision Obs}.

(** One call [observer.update(temperature, humidity, pressure)]. *)
Definition update_call : Type := Obs * (number * number * number).

(** [class WeatherData] *)
Record WeatherData := {
  observers : list Obs;
  temperature : number;
  humidity : number;
  pressure : number
}.

Definition WeatherData_new : WeatherData :=
  {| observers := []; temperature := zero; humidity := zero;
     pressure := zero |}.

Definition registerObserver (this : WeatherData) (observer : Obs)
  : WeatherData :=
  {| observers := push (observers this) observer;
     temperature := temperature this; humidity := humidity this;
     pressure := pressure this |}.

Definition removeObserver (this : WeatherData) (observer : Obs)
  : WeatherData :=
  let index := indexOf (observers this) observer in
  if negb (index =? -1)
  then {| observers := splice (observers this) index 1;
          temperature := temperature this; humidity := humidity this;
          pressure := pressure this |}
  else this.

(** The body of [for (const observer of this.observers)]: the [update]
    calls made, oldest first. *)
Fixpoint notify_loop (os : list Obs) (t h p : number)
    (calls : list update_call) : list update_call :=
  match os with
  | [] => calls
  | observer :: rest =>
      notify_loop rest t h p (calls ++ [(observer, (t, h, p))])
  end.

Definition notifyObservers (this : WeatherData) (calls : list update_call)
  : list update_call :=
  notify_loop (observers this) (temperature this) (humidity this)
    (pressure this) calls.

Definition setMeasurements (this : WeatherData) (t h p : number)
    (calls : list update_call) : WeatherData * list update_call :=
  let this' :=
    {| observers := observers this; temperature := t; humidity := h;
       pressure := p |} in
  (this', notifyObservers this' calls).

(** How many of the [update] calls went to [observer]. *)
Definition updates_to (observer : Obs) (calls : list update_call) : nat :=
  length (filter (fun c => c.1 = observer) calls).

End Subject.

End Observer.

(** ** Iterator *)

Module Iterator.
Import JS.

(** [class Song] *)
Record Song := { title : string; artist : string }.

Definition getTitle (this : Song) : string := title this.
Definition getArtist (this : Song) : string := artist this.

(** [class Playlist] *)
Record Playlist := { songs : list Song }.

Definition Playlist_new : Playlist := {| songs := [] |}.

Definition addSong (this : Playlist) (song : Song) : Playlist :=
  {| songs := push (songs this) song |}.

Definition getSongs (this : Playlist) : list Song := songs this.

(** [class PlaylistIterator].  Its field [playlist] is a reference to the
    playlist object, which the client may go on changing: the methods take
    the playlist as it is at the time of the call. *)
Record PlaylistIterator := { currentPosition : Z }.

Definition createIterator (this : Playlist) : PlaylistIterator :=
  {| currentPosition := 0 |}.

Definition hasNext (this : PlaylistIterator) (playlist : Playlist) : bool :=
  currentPosition this <? Z.of_nat (length (getSongs playlist)).

(** [next()]: the result is [undefined] ([None]) past the end; the position
    moves on in any case. *)
Definition next (this : PlaylistIterator) (playlist : Playlist)
  : option Song * PlaylistIterator :=
  (array_get (getSongs playlist) (currentPosition this),
   {| currentPosition := currentPosition this + 1 |}).

(** [iterateSongs]: the [while] loop, with a bound on the number of tests of
    its condition ([None]: bound reached).  [song.getTitle()] on [undefined]
    would throw a [TypeError]. *)
Fixpoint iterateSongs (fuel : nat) (iterator : PlaylistIterator)
    (playlist : Playlist) (out : console)
  : option (outcome (PlaylistIterator * console)) :=
  match fuel with
  | O => None
  | S fuel' =>
      if hasNext iterator playlist then
        let '(song, iterator') := next iterator playlist in
        match song with
        | Some song =>
            iterateSongs fuel' iterator' playlist
              (console_log out
                 ("Now playing: " +:+ getTitle song +:+ " by "
                  +:+ getArtist song))
        | None => Some (Thrown "TypeError")
        end
      else Some (Returned (iterator, out))
  end.

End Iterator.

(** ** Proxy *)

Module Proxy.
Import JS.

(** [class RealImage]: the constructor loads the image. *)
Record RealImage := { filename : string }.

Definition loadImage (this : RealImage) (out : console) : console :=
  console_log out ("Loading image: " +:+ filename this).

Definition RealImage_new (name : string) (out : console)
  : RealImage * console :=
  let this := {| filename := name |} in
  (this, loadImage this out).

Definition RealImage_display (this : RealImage) (out : console) : console :=
  console_log out ("Displaying image: " +:+ filename this).

(** [class ImageProxy] *)
Record ImageProxy := {
  realImage : option RealImage;
  proxy_filename : string
}.

Definition ImageProxy_new (name : string) : ImageProxy :=
  {| realImage := None; proxy_filename := name |}.

Definition ImageProxy_display (this : ImageProxy) (out : console)
  : ImageProxy * console :=
  match realImage this with
  | None =>
      let '(real, out) := RealImage_new (proxy_filename this) out in
      ({| realImage := Some real; proxy_filename := proxy_filename this |},
       RealImage_display real out)
  | Some real => (this, RealImage_display real out)
  end.

(** [displayImage(image)] called [n] times on the same proxy. *)
Fixpoint displayImage_times (n : nat) (image : ImageProxy) (out : console)
  : ImageProxy * console :=
  match n with
  | O => (image, out)
  | S n' =>
      let '(image, out) := ImageProxy_display image out in
      displayImage_times n' image out
  end.

End Proxy.

(** ** Decorator *)

Module Decorator.

(** The classes that implement [Coffee].  A decorator keeps the coffee it
    wraps in a private field that only its constructor writes, so a coffee
    is a finite tree of objects.  Costs are sums of the integers 5, 2, 1 and
    3, which JavaScript numbers represent exactly far beyond any coffee that
    fits in memory; they are integers here. *)
Inductive Coffee :=
| SimpleCoffee
| MilkDecorator (coffee : Coffee)
| SugarDecorator (coffee : Coffee)
| FlavoringDecorator (coffee : Coffee) (flavor : string).

Fixpoint cost (this : Coffee) : Z :=
  match this with
  | SimpleCoffee => 5
  | MilkDecorator coffee => cost coffee + 2
  | SugarDecorator coffee => cost coffee + 1
  | FlavoringDecorator coffee _ => cost coffee + 3
  end.

Fixpoint description (this : Coffee) : string :=
  match this with
  | SimpleCoffee => "Simple coffee"
  | MilkDecorator coffee => description coffee +:+ ", with milk"
  | SugarDecorator coffee => description coffee +:+ ", with sugar"
  | FlavoringDecorator coffee flavor =>
      description coffee +:+ (", with " +:+ flavor +:+ " flavoring")
  end.

(** How many decorators of each class a coffee is wrapped in. *)
Fixpoint milks (this : Coffee) : nat :=
  match this with
  | SimpleCoffee => 0%nat
  | MilkDecorator coffee => S (milks coffee)
  | SugarDecorator coffee | FlavoringDecorator coffee _ => milks coffee
  end.

Fixpoint sugars (this : Coffee) : nat :=
  match this with
  | SimpleCoffee => 0%nat
  | SugarDecorator coffee => S (sugars coffee)
  | MilkDecorator coffee | FlavoringDecorator coffee _ => sugars coffee
  end.

Fixpoint flavorings (this : Coffee) : nat :=
  match this with
  | SimpleCoffee => 0%nat
  | FlavoringDecorator coffee _ => S (flavorings coffee)
  | MilkDecorator coffee | SugarDecorator coffee => flavorings coffee
  end.

(** The suffixes that the decorators add to the description, innermost
    decorator first. *)
Fixpoint additions (this : Coffee) : list string :=
  match this with
  | SimpleCoffee => []
  | MilkDecorator coffee => additions coffee ++ [", with milk"]
  | SugarDecorator coffee => additions coffee ++ [", with sugar"]
  | FlavoringDecorator coffee flavor =>
      additions coffee ++ [", with " +:+ flavor +:+ " flavoring"]
  end.

End Decorator.

(** * Properties *)

Module MementoFacts.
Import JS Memento.

Example testTextEditorMemento_output :
  testTextEditorMemento [] = Some ["Restored state: Hello, "].
Proof. reflexivity. Qed.

(** *** Array reads *)

Lemma array_get_in_range {A : Type} (arr : list A) (i : Z) :
  0 <= i < Z.of_nat (length arr) ->
  exists x, arr !! Z.to_nat i = Some x /\ array_get arr i = Some x.
Proof.
  intros [Hlo Hhi]. unfold array_get.
  destruct (Z.ltb_spec i 0) as [Hneg | _]; [lia |].
  destruct (lookup_lt_is_Some_2 arr (Z.to_nat i)) as [x Hx]; [lia |].
  exists x. by rewrite Hx.
Qed.

Lemma array_get_out_of_range {A : Type} (arr : list A) (i : Z) :
  ~ (0 <= i < Z.of_nat (length arr)) -> array_get arr i = None.
Proof.
  intros Hout. unfold array_get.
  destruct (Z.ltb_spec i 0) as [Hneg | Hpos]; [done |].
  apply lookup_ge_None_2. lia.
Qed.


Lemma array_get_push_old {A : Type} (arr : list A) (x : A) (i : Z) :
  i < Z.of_nat (length arr) -> array_get (push arr x) i = array_get arr i.
Proof.
  intros Hi. unfold array_get, push.
  destruct (Z.ltb_spec i 0); [done |].
  apply lookup_app_l. lia.
Qed.

Lemma array_get_push_new {A : Type} (arr : list A) (x : A) :
  array_get (push arr x) (Z.of_nat (length arr)) = Some x.
Proof.
  unfold array_get, push.
  destruct (Z.ltb_spec (Z.of_nat (length arr)) 0); [lia |].
  rewrite Nat2Z.id. apply list_lookup_middle. done.
Qed.

(** *** Calls on a history *)

Lemma invoke_returns (this : MyHistory) (c : call) :
  exists v, (invoke this c).1 = Returned v.
Proof. destruct c; simpl; eauto. Qed.

Lemma invoke_never_throws (this : MyHistory) (c : call) (e : string) :
  (invoke this c).1 <> Thrown e.
Proof.
  destruct (invoke_returns this c) as [v Hv]. rewrite Hv. discriminate.
Qed.

Lemma mementos_add_all (this : MyHistory) (ss : list ref) :
  mementos (add_all this ss) = mementos this ++ ss.
Proof.
  revert this. induction ss as [| s ss IH]; intros this; simpl.
  - by rewrite app_nil_r.
  - unfold add_all in *. simpl. rewrite IH. simpl. unfold push.
    by rewrite <- app_assoc.
Qed.

Lemma getMemento_in_range (this : MyHistory) (i : Z) :
  0 <= i < size this ->
  exists m, mementos this !! Z.to_nat i = Some m /\
            invoke this (GetMemento i) = (Returned (VMemento m), this).
Proof.
  intros Hin.
  destruct (array_get_in_range (mementos this) i Hin) as (m & Hm & Hg).
  exists m. split; [done |]. simpl. unfold getMemento. by rewrite Hg.
Qed.

Lemma getMemento_out_of_range (this : MyHistory) (i : Z) :
  ~ (0 <= i < size this) ->
  invoke this (GetMemento i) = (Returned VUndefined, this).
Proof.
  intros Hout. simpl. unfold getMemento.
  by rewrite (array_get_out_of_range (mementos this) i Hout).
Qed.

(** *** The claims about [MyHistory] *)

(** C1, as the code has it.  [MyHistory] has no [undo()], no cursor and no
    [NoHistoryError]; the caller keeps the position and reads the previous
    state with [getMemento(position - 1)].  For every history and every
    integer position that read returns normally and leaves the history as it
    was: with [position <= 0] (the empty history's [-1] included) it returns
    [undefined], with [0 < position <= length] it returns the memento stored
    at [position - 1], and with [position > length] it returns [undefined]
    again. *)
Theorem previous_state_read (this : MyHistory) (position : Z) :
  (exists v,
     invoke this (GetMemento (position - 1)) = (Returned v, this)) /\
  (position <= 0 ->
   invoke this (GetMemento (position - 1)) = (Returned VUndefined, this)) /\
  (0 < position <= size this ->
   exists m, mementos this !! Z.to_nat (position - 1) = Some m /\
             invoke this (GetMemento (position - 1))
             = (Returned (VMemento m), this)) /\
  (size this < position ->
   invoke this (GetMemento (position - 1)) = (Returned VUndefined, this)).
Proof.
  split; [by eexists |]. split; [| split]; intros Hp.
  - apply getMemento_out_of_range. lia.
  - apply getMemento_in_range. lia.
  - apply getMemento_out_of_range. lia.
Qed.

Lemma previous_state_read_witness :
  invoke MyHistory_new (GetMemento (-1 - 1))
  = (Returned VUndefined, MyHistory_new) /\
  (exists m, [4%nat; 9%nat] !! Z.to_nat (1 - 1) = Some m /\
             invoke {| mementos := [4%nat; 9%nat] |} (GetMemento (1 - 1))
             = (Returned (VMemento m), {| mementos := [4%nat; 9%nat] |})) /\
  invoke {| mementos := [4%nat; 9%nat] |} (GetMemento (5 - 1))
  = (Returned VUndefined, {| mementos := [4%nat; 9%nat] |}).
Proof.
  split; [| split].
  - apply (proj1 (proj2 (previous_state_read MyHistory_new (-1)))). lia.
  - apply (proj1 (proj2 (proj2
             (previous_state_read {| mementos := [4%nat; 9%nat] |} 1)))).
    unfold size. simpl. lia.
  - apply (proj2 (proj2 (proj2
             (previous_state_read {| mementos := [4%nat; 9%nat] |} 5)))).
    unfold size. simpl. lia.
Defined.

(** C1 as stated fails: on the empty history (position [-1]) the read of the
    previous state returns [undefined], and no call of [MyHistory] throws a
    [NoHistoryError]. *)
Lemma previous_state_read_on_empty_does_not_throw :
  size MyHistory_new - 1 = -1 /\
  invoke MyHistory_new (GetMemento (-1 - 1))
  = (Returned VUndefined, MyHistory_new) /\
  ~ (exists c, (invoke MyHistory_new c).1 = Thrown "NoHistoryError").
Proof.
  split; [reflexivity |]. split; [reflexivity |].
  intros [c Hc].
  by apply (invoke_never_throws MyHistory_new c "NoHistoryError") in Hc.
Qed.

(** C2, as the code has it.  For every non-empty list [s1 .. sn] of
    mementos: after [addMemento(s1); ...; addMemento(sn)] on a fresh history
    the length is [n], [getMemento(n-1)] returns [sn], each of the [n-1]
    steps back from there returns the memento stored one index lower
    ([getMemento(n-1-k)] for [k = 1 .. n-1]), and the [n]-th step back,
    [getMemento(-1)], returns [undefined]; nothing throws. *)
Theorem add_all_then_step_back (ss : list ref) :
  ss <> [] ->
  let this := add_all MyHistory_new ss in
  size this = Z.of_nat (length ss) /\
  (exists sn, last ss = Some sn /\
              invoke this (GetMemento (size this - 1))
              = (Returned (VMemento sn), this)) /\
  (forall k, 1 <= k <= size this - 1 ->
     exists s, ss !! Z.to_nat (size this - 1 - k) = Some s /\
               invoke this (GetMemento (size this - 1 - k))
               = (Returned (VMemento s), this)) /\
  invoke this (GetMemento (size this - 1 - size this))
  = (Returned VUndefined, this).
Proof.
  intros Hne this.
  assert (Hm : mementos this = ss).
  { unfold this. by rewrite mementos_add_all. }
  assert (Hsize : size this = Z.of_nat (length ss)).
  { unfold size. by rewrite Hm. }
  assert (Hpos : 0 < size this).
  { rewrite Hsize. destruct ss; [done | simpl; lia]. }
  split; [exact Hsize |]. split; [| split].
  - destruct (getMemento_in_range this (size this - 1)) as (m & Hl & Hi);
      [lia |].
    exists m. split; [| exact Hi].
    rewrite last_lookup. rewrite Hm in Hl. rewrite <- Hl. f_equal.
    rewrite Hsize. lia.
  - intros k Hk.
    destruct (getMemento_in_range this (size this - 1 - k)) as (m & Hl & Hi);
      [lia |].
    exists m. split; [| exact Hi]. by rewrite <- Hm.
  - apply getMemento_out_of_range. lia.
Qed.

Lemma add_all_then_step_back_witness :
  [3%nat; 5%nat; 8%nat] <> [] /\
  size (add_all MyHistory_new [3%nat; 5%nat; 8%nat]) = 3 /\
  invoke (add_all MyHistory_new [3%nat; 5%nat; 8%nat]) (GetMemento (3 - 1 - 3))
  = (Returned VUndefined, add_all MyHistory_new [3%nat; 5%nat; 8%nat]).
Proof.
  assert (Hne : [3%nat; 5%nat; 8%nat] <> []) by discriminate.
  split; [exact Hne |].
  destruct (add_all_then_step_back [3%nat; 5%nat; 8%nat] Hne)
    as (Hsize & _ & _ & Hlast).
  split; [exact Hsize | exact Hlast].
Defined.

(** C2 as stated fails already for [n = 1]: after one [addMemento] the
    current memento is at index 0, the first step back (index [-1]) returns
    [undefined], so no step back succeeds, and no call throws a
    [NoHistoryError]. *)
Lemma one_save_has_no_previous_state :
  invoke (add_all MyHistory_new [0%nat]) (GetMemento (1 - 1))
  = (Returned (VMemento 0%nat), add_all MyHistory_new [0%nat]) /\
  invoke (add_all MyHistory_new [0%nat]) (GetMemento (1 - 1 - 1))
  = (Returned VUndefined, add_all MyHistory_new [0%nat]) /\
  ~ (exists c, (invoke (add_all MyHistory_new [0%nat]) c).1
               = Thrown "NoHistoryError").
Proof.
  split; [reflexivity |]. split; [reflexivity |].
  intros [c Hc]. by apply (invoke_never_throws _ c "NoHistoryError") in Hc.
Qed.

(** C3, as the code has it.  [addMemento(sNew)] discards nothing, whatever
    index the caller last read: the stored mementos all stay, each at its
    index, [sNew] is appended, and the new last index holds [sNew]; the read
    one past the new last index returns [undefined]. *)
Theorem addMemento_keeps_all (this : MyHistory) (sNew : ref) :
  mementos (addMemento this sNew) = mementos this ++ [sNew] /\
  (forall i, i < size this ->
     getMemento (addMemento this sNew) i = getMemento this i) /\
  size (addMemento this sNew) = size this + 1 /\
  getMemento (addMemento this sNew) (size (addMemento this sNew) - 1)
  = Some sNew /\
  invoke (addMemento this sNew) (GetMemento (size (addMemento this sNew)))
  = (Returned VUndefined, addMemento this sNew).
Proof.
  assert (Hsize : size (addMemento this sNew) = size this + 1).
  { unfold size, addMemento, push. simpl. rewrite length_app. simpl. lia. }
  split; [reflexivity |]. split; [| split; [exact Hsize | split]].
  - intros i Hi. unfold getMemento, addMemento. simpl.
    by apply array_get_push_old.
  - rewrite Hsize. replace (size this + 1 - 1) with (size this) by lia.
    unfold getMemento, addMemento, size. simpl. apply array_get_push_new.
  - apply getMemento_out_of_range. lia.
Qed.

Lemma addMemento_keeps_all_witness :
  0 < size {| mementos := [0%nat; 1%nat] |} /\
  getMemento (addMemento {| mementos := [0%nat; 1%nat] |} 2%nat) 0
  = getMemento {| mementos := [0%nat; 1%nat] |} 0.
Proof.
  assert (H : 0 < size {| mementos := [0%nat; 1%nat] |}) by reflexivity.
  split; [exact H |].
  exact (proj1 (proj2
           (addMemento_keeps_all {| mementos := [0%nat; 1%nat] |} 2%nat))
           0 H).
Defined.

(** C3 as stated fails: with mementos [a; b] stored and the caller back at
    index 0, [addMemento(c)] gives [a; b; c], not [a; c]: the memento at
    index 1, above the caller's index, is still there and is still what the
    read of the next index returns. *)
Lemma addMemento_does_not_truncate :
  mementos (addMemento {| mementos := [0%nat; 1%nat] |} 2%nat)
  = [0%nat; 1%nat; 2%nat] /\
  mementos (addMemento {| mementos := [0%nat; 1%nat] |} 2%nat)
  <> [0%nat; 2%nat] /\
  invoke (addMemento {| mementos := [0%nat; 1%nat] |} 2%nat)
         (GetMemento (0 + 1))
  = (Returned (VMemento 1%nat),
     addMemento {| mementos := [0%nat; 1%nat] |} 2%nat).
Proof. split; [reflexivity |]. split; [discriminate | reflexivity]. Qed.






(** C5.  Every call on a history appends at the tail or leaves the sequence
    unchanged (no call truncates): the old sequence is a prefix of the new
    one, and every stored memento keeps its index. *)
Theorem calls_never_reorder (this : MyHistory) (c : call) :
  mementos this `prefix_of` mementos (invoke this c).2 /\
  (forall (i : nat) (m : ref),
     mementos this !! i = Some m -> mementos (invoke this c).2 !! i = Some m)
  /\
  ((invoke this c).2 = this \/
   exists m, mementos (invoke this c).2 = mementos this ++ [m]).
Proof.
  destruct c as [m | i]; simpl.
  - split; [by apply prefix_app_r | split].
    + intros i x Hx. unfold push. by apply lookup_app_l_Some.
    + right. by exists m.
  - split; [done | split; [done | by left]].
Qed.

Lemma calls_never_reorder_witness :
  [4%nat; 9%nat] !! 1%nat = Some 9%nat /\
  mementos (invoke {| mementos := [4%nat; 9%nat] |} (AddMemento 7%nat)).2
    !! 1%nat = Some 9%nat.
Proof.
  assert (H : [4%nat; 9%nat] !! 1%nat = Some 9%nat) by reflexivity.
  split; [exact H |].
  exact (proj1 (proj2
           (calls_never_reorder {| mementos := [4%nat; 9%nat] |}
              (AddMemento 7%nat))) 1%nat 9%nat H).
Defined.

(** C8.  For every history and every integer index, [getMemento(index)]
    returns normally and leaves the history unchanged: the memento stored at
    [index] when [0 <= index < length], and [undefined] for every other
    index. *)
Theorem getMemento_total (this : MyHistory) (index : Z) :
  (exists v, invoke this (GetMemento index) = (Returned v, this)) /\
  (0 <= index < size this ->
   exists m, mementos this !! Z.to_nat index = Some m /\
             getMemento this index = Some m /\
             invoke this (GetMemento index) = (Returned (VMemento m), this))
  /\
  (~ (0 <= index < size this) ->
   getMemento this index = None /\
   invoke this (GetMemento index) = (Returned VUndefined, this)).
Proof.
  split; [by eexists | split].
  - intros Hin.
    destruct (array_get_in_range (mementos this) index Hin) as (m & Hm & Hg).
    exists m. split; [done |]. split; [done |].
    simpl. unfold getMemento. by rewrite Hg.
  - intros Hout. split.
    + by apply array_get_out_of_range.
    + by apply getMemento_out_of_range.
Qed.

Lemma getMemento_total_witness :
  (0 <= 1 < size {| mementos := [4%nat; 9%nat] |}) /\
  (exists m, [4%nat; 9%nat] !! Z.to_nat 1 = Some m /\
             getMemento {| mementos := [4%nat; 9%nat] |} 1 = Some m /\
             invoke {| mementos := [4%nat; 9%nat] |} (GetMemento 1)
             = (Returned (VMemento m), {| mementos := [4%nat; 9%nat] |})) /\
  ~ (0 <= -1 < size {| mementos := [4%nat; 9%nat] |}) /\
  getMemento {| mementos := [4%nat; 9%nat] |} (-1) = None.
Proof.
  assert (Hin : 0 <= 1 < size {| mementos := [4%nat; 9%nat] |}).
  { unfold size. simpl. lia. }
  assert (Hout : ~ (0 <= -1 < size {| mementos := [4%nat; 9%nat] |})) by lia.
  split; [exact Hin |]. split; [| split; [exact Hout |]].
  - exact (proj1 (proj2
             (getMemento_total {| mementos := [4%nat; 9%nat] |} 1)) Hin).
  - exact (proj1 (proj2 (proj2
             (getMemento_total {| mementos := [4%nat; 9%nat] |} (-1))) Hout)).
Defined.

(** *** Memento objects are never written after construction *)

Lemma getState_new (st : string) (os : objects) :
  getState (TextEditorMemento_new st os).2 (TextEditorMemento_new st os).1
  = Some st.
Proof.
  unfold getState, TextEditorMemento_new. cbn [fst snd].
  by rewrite (list_lookup_middle os [] _ (length os) eq_refl).
Qed.

Lemma perform_keeps_state (s s' : session) (a : action) (m : ref)
    (st : string) :
  perform s a = Some s' ->
  getState (objs s) m = Some st -> getState (objs s') m = Some st.
Proof.
  intros Hp Hm. destruct a as [t | | | m' | m' | c]; simpl in Hp.
  - by injection Hp as <-.
  - by injection Hp as <-.
  - injection Hp as <-. simpl. unfold getState in *.
    destruct (objs s !! m) as [x |] eqn:E; [| done].
    by rewrite (lookup_app_l_Some _ _ _ _ E).
  - destruct (restoreFromMemento (editor s) (objs s) m'); [| done].
    simpl in Hp. by injection Hp as <-.
  - destruct (getState (objs s) m'); [| done].
    simpl in Hp. by injection Hp as <-.
  - by injection Hp as <-.
Qed.

Lemma perform_all_keeps_state (acts : list action) (s s' : session)
    (m : ref) (st : string) :
  perform_all s acts = Some s' ->
  getState (objs s) m = Some st -> getState (objs s') m = Some st.
Proof.
  revert s. induction acts as [| a acts IH]; intros s Hp Hm; simpl in Hp.
  - by injection Hp as <-.
  - destruct (perform s a) as [mid |] eqn:Ea; [| done]. simpl in Hp.
    apply (IH mid Hp). by apply (perform_keeps_state s mid a).
Qed.

Lemma restore_reads_state (e : TextEditor) (os : objects) (m : ref)
    (st : string) :
  getState os m = Some st ->
  exists e', restoreFromMemento e os m = Some e' /\ getText e' = st.
Proof.
  intros Hm. unfold restoreFromMemento. rewrite Hm. simpl. by eexists.
Qed.

(** C9.  After [setText(t1)] and [m := createMemento()], the memento holds
    [t1]; after any further sequence of [setText] calls
    [restoreFromMemento(m)] makes [getText()] return [t1]; and after any
    sequence whatever of calls on the editor, the history and the mementos,
    the state stored in [m] is still [t1] and restoring from [m] still makes
    [getText()] return [t1]. *)
Theorem memento_round_trip (objs0 : objects) (e : TextEditor)
    (h : MyHistory) (t1 : string) :
  getState (createMemento (setText e t1) objs0).2
           (createMemento (setText e t1) objs0).1 = Some t1 /\
  (forall ts : list string,
     exists e',
       restoreFromMemento (foldl setText (setText e t1) ts)
         (createMemento (setText e t1) objs0).2
         (createMemento (setText e t1) objs0).1 = Some e' /\
       getText e' = t1) /\
  (forall (acts : list action) (s' : session),
     perform_all {| objs := (createMemento (setText e t1) objs0).2;
                    editor := setText e t1; history := h |} acts = Some s' ->
     getState (objs s') (createMemento (setText e t1) objs0).1 = Some t1 /\
     exists e',
       restoreFromMemento (editor s') (objs s')
         (createMemento (setText e t1) objs0).1 = Some e' /\
       getText e' = t1).
Proof.
  assert (Hnew : getState (createMemento (setText e t1) objs0).2
                          (createMemento (setText e t1) objs0).1 = Some t1).
  { unfold createMemento. simpl. apply getState_new. }
  split; [exact Hnew |]. split.
  - intros ts. by apply restore_reads_state.
  - intros acts s' Hrun.
    assert (Hkept := perform_all_keeps_state acts _ s' _ t1 Hrun Hnew).
    split; [exact Hkept |]. by apply restore_reads_state.
Qed.

Lemma memento_round_trip_witness :
  perform_all
    {| objs := (createMemento (setText TextEditor_new "Hello, ") []).2;
       editor := setText TextEditor_new "Hello, ";
       history := MyHistory_new |}
    [History (AddMemento 0%nat); SetText "Hello, World!"; CreateMemento;
     History (AddMemento 1%nat); RestoreFromMemento 1%nat]
  = Some {| objs := [ {| state := "Hello, " |};
                      {| state := "Hello, World!" |} ];
            editor := {| text := "Hello, World!" |};
            history := {| mementos := [0%nat; 1%nat] |} |} /\
  getState [ {| state := "Hello, " |}; {| state := "Hello, World!" |} ]
           (createMemento (setText TextEditor_new "Hello, ") []).1
  = Some "Hello, ".
Proof.
  assert (Hrun :
    perform_all
      {| objs := (createMemento (setText TextEditor_new "Hello, ") []).2;
         editor := setText TextEditor_new "Hello, ";
         history := MyHistory_new |}
      [History (AddMemento 0%nat); SetText "Hello, World!"; CreateMemento;
       History (AddMemento 1%nat); RestoreFromMemento 1%nat]
    = Some {| objs := [ {| state := "Hello, " |};
                        {| state := "Hello, World!" |} ];
              editor := {| text := "Hello, World!" |};
              history := {| mementos := [0%nat; 1%nat] |} |}).
  { reflexivity. }
  split; [exact Hrun |].
  exact (proj1 (proj2 (proj2
           (memento_round_trip [] TextEditor_new MyHistory_new "Hello, ")
           ) _ _ Hrun)).
Defined.

(** *** The client's steps *)

Lemma testTextEditorMemento_steps (out : console) :
  testTextEditorMemento out
  = snd <$> restore (save (save session_new "Hello, ") "Hello, World!") 0 out.
Proof. reflexivity. Qed.

(** X1.
    A fresh memento object: [createMemento] returns an address that held no
    object before, stores the editor's current text there, leaves every
    existing memento as it was, and does not change the editor. *)
Theorem createMemento_is_fresh (e : TextEditor) (os : objects) :
  getState os (createMemento e os).1 = None /\
  getState (createMemento e os).2 (createMemento e os).1 = Some (getText e) /\
  (forall (m : ref) (st : string),
     getState os m = Some st -> getState (createMemento e os).2 m = Some st)
  /\
  restoreFromMemento e (createMemento e os).2 (createMemento e os).1 = Some e.
Proof.
  unfold createMemento. split; [| split; [| split]].
  - unfold getState, TextEditorMemento_new. cbn [fst].
    apply fmap_None, lookup_ge_None_2. lia.
  - apply getState_new.
  - intros m st Hm. unfold getState, TextEditorMemento_new in *. cbn [snd].
    destruct (os !! m) as [x |] eqn:E; [| done].
    by rewrite (lookup_app_l_Some _ _ _ _ E).
  - unfold restoreFromMemento. rewrite getState_new. by destruct e.
Qed.

Lemma createMemento_is_fresh_witness :
  getState [ {| state := "a" |} ] 0%nat = Some "a" /\
  getState (createMemento {| text := "b" |} [ {| state := "a" |} ]).2 0%nat
  = Some "a".
Proof.
  assert (H : getState [ {| state := "a" |} ] 0%nat = Some "a")
    by reflexivity.
  split; [exact H |].
  exact (proj1 (proj2 (proj2
           (createMemento_is_fresh {| text := "b" |} [ {| state := "a" |} ])))
           0%nat "a" H).
Defined.

Lemma save_unfold (s : session) (t : string) :
  save s t
  = {| objs := objs s ++ [ {| state := t |} ];
       editor := {| text := t |};
       history := {| mementos := mementos (history s) ++ [length (objs s)] |}
    |}.
Proof. reflexivity. Qed.

(** What a session looks like after saving the texts [ts] one after the
    other, starting from nothing. *)
Lemma save_all_shape (ts : list string) :
  objs (foldl save session_new ts) = (fun t => {| state := t |}) <$> ts /\
  mementos (history (foldl save session_new ts)) = seq 0 (length ts) /\
  text (editor (foldl save session_new ts)) = default "" (last ts).
Proof.
  induction ts as [| t ts IH] using rev_ind.
  - done.
  - rewrite foldl_app. cbn [foldl]. rewrite save_unfold. cbn [objs history
      editor mementos text].
    destruct IH as (Ho & Hm & He). rewrite Ho, Hm.
    rewrite fmap_app, length_fmap, length_app, last_snoc.
    split; [done |]. split; [| done].
    cbn [length]. rewrite Nat.add_1_r. by rewrite seq_S.
Qed.

Lemma getState_of_texts (ts : list string) (i : nat) :
  getState ((fun t => {| state := t |}) <$> ts) i = ts !! i.
Proof.
  unfold getState.
  change (state <$> ((fun t => {| state := t |}) <$> ts) !! i = ts !! i).
  rewrite list_lookup_fmap. by destruct (ts !! i).
Qed.

(** X2.
    Save, then restore by index.  After saving the texts [t0 .. t(n-1)] one
    after the other in a new session, restoring with an index in
    [0 .. n-1] succeeds, sets the editor's text to the text saved at that
    index and prints it after "Restored state: ", and leaves history and
    mementos untouched; with any other index nothing changes and
    "No previous state available." is printed. *)
Theorem save_then_restore (ts : list string) (index : Z) (out : console) :
  (0 <= index < Z.of_nat (length ts) ->
   exists t s',
     ts !! Z.to_nat index = Some t /\
     restore (foldl save session_new ts) index out
     = Some (s', out ++ ["Restored state: " +:+ t]) /\
     getText (editor s') = t /\
     history s' = history (foldl save session_new ts) /\
     objs s' = objs (foldl save session_new ts)) /\
  (~ (0 <= index < Z.of_nat (length ts)) ->
   restore (foldl save session_new ts) index out
   = Some (foldl save session_new ts,
           out ++ ["No previous state available."])).
Proof.
  destruct (save_all_shape ts) as (Ho & Hm & _).
  split.
  - intros Hin.
    destruct (lookup_lt_is_Some_2 ts (Z.to_nat index)) as [t Ht]; [lia |].
    exists t. unfold restore, getMemento. rewrite Hm.
    destruct (array_get_in_range (A := ref) (seq 0 (length ts)) index)
      as (m & Hl & Hg).
    { rewrite length_seq. lia. }
    rewrite Hg. apply lookup_seq in Hl as [-> _]. simpl.
    unfold restoreFromMemento. rewrite Ho, getState_of_texts, Ht.
    simpl. eexists. split; [done |]. split; [done |]. done.
  - intros Hout. unfold restore, getMemento. rewrite Hm.
    rewrite (array_get_out_of_range (A := ref)); [done |].
    by rewrite length_seq.
Qed.

Lemma save_then_restore_witness :
  (0 <= 0 < Z.of_nat (length ["Hello, "; "Hello, World!"])) /\
  exists t s',
    ["Hello, "; "Hello, World!"] !! Z.to_nat 0 = Some t /\
    restore (foldl save session_new ["Hello, "; "Hello, World!"]) 0 []
    = Some (s', [] ++ ["Restored state: " +:+ t]) /\
    getText (editor s') = t /\
    history s' = history (foldl save session_new ["Hello, "; "Hello, World!"])
    /\
    objs s' = objs (foldl save session_new ["Hello, "; "Hello, World!"]).
Proof.
  assert (H : 0 <= 0 < Z.of_nat (length ["Hello, "; "Hello, World!"])).
  { simpl. lia. }
  split; [exact H |].
  exact (proj1 (save_then_restore ["Hello, "; "Hello, World!"] 0 []) H).
Defined.

(** *** Sessions never get stuck *)

Lemma getState_allocated (os : objects) (m : ref) :
  (m < length os)%nat -> is_Some (getState os m).
Proof.
  intros Hm. unfold getState. apply fmap_is_Some.
  by apply lookup_lt_is_Some_2.
Qed.

Lemma getMemento_elem (this : MyHistory) (index : Z) (m : ref) :
  getMemento this index = Some m -> m ∈ mementos this.
Proof.
  unfold getMemento, array_get.
  destruct (index <? 0); [done |]. apply list_elem_of_lookup_2.
Qed.

(** X3.
    What the history hands out can always be restored.  In a session whose
    history holds allocated mementos only: every action that passes
    allocated mementos succeeds, never frees or overwrites a memento object,
    and leaves the session in the same condition; and restoring from any
    index never gets stuck, because [getMemento] returns either [undefined]
    or an allocated memento. *)
Theorem sessions_never_get_stuck (s : session) :
  well_formed s ->
  (forall a, valid_action s a ->
     exists s', perform s a = Some s' /\ well_formed s' /\
                (length (objs s) <= length (objs s'))%nat) /\
  (forall index m,
     getMemento (history s) index = Some m ->
     exists e, restoreFromMemento (editor s) (objs s) m = Some e) /\
  (forall index out, is_Some (restore s index out)).
Proof.
  intros Hwf.
  assert (Hrestore : forall index m,
            getMemento (history s) index = Some m ->
            exists e, restoreFromMemento (editor s) (objs s) m = Some e).
  { intros index m Hm. apply getMemento_elem, Hwf in Hm.
    destruct (getState_allocated _ _ Hm) as [st Hst].
    unfold restoreFromMemento. rewrite Hst. simpl. by eexists. }
  split; [| split; [exact Hrestore |]].
  - intros a Ha. destruct a as [t | | | m | m | [m | i]]; simpl in *.
    + eexists. split; [done |]. split; [exact Hwf | done].
    + eexists. split; [done |]. split; [exact Hwf | done].
    + eexists. split; [done |]. unfold well_formed. simpl. split.
      * intros m Hm. rewrite length_app. specialize (Hwf m Hm). simpl. lia.
      * rewrite length_app. lia.
    + destruct (getState_allocated _ _ Ha) as [st Hst].
      unfold restoreFromMemento. rewrite Hst. simpl.
      eexists. split; [done |]. split; [exact Hwf | done].
    + destruct (getState_allocated _ _ Ha) as [st Hst]. rewrite Hst. simpl.
      eexists. split; [done |]. split; [exact Hwf | done].
    + eexists. split; [done |]. unfold well_formed. simpl. split; [| done].
      intros x Hx. unfold push in Hx. apply elem_of_app in Hx as [Hx | Hx].
      * by apply Hwf.
      * apply list_elem_of_singleton in Hx. by subst x.
    + eexists. split; [done |]. split; [exact Hwf | done].
  - intros index out. unfold restore.
    destruct (getMemento (history s) index) as [m |] eqn:E; [| done].
    destruct (Hrestore index m E) as [e He]. rewrite He. simpl. done.
Qed.

Lemma sessions_never_get_stuck_witness :
  well_formed (save (save session_new "Hello, ") "Hello, World!") /\
  is_Some (restore (save (save session_new "Hello, ") "Hello, World!") 1 []).
Proof.
  assert (Hwf : well_formed
                  (save (save session_new "Hello, ") "Hello, World!")).
  { intros m Hm. simpl in Hm. unfold push in Hm. simpl in Hm.
    apply elem_of_cons in Hm as [-> | Hm]; [simpl; lia |].
    apply elem_of_cons in Hm as [-> | Hm]; [simpl; lia |].
    by apply elem_of_nil in Hm. }
  split; [exact Hwf |].
  exact (proj2 (proj2
           (sessions_never_get_stuck
              (save (save session_new "Hello, ") "Hello, World!") Hwf))
           1 []).
Defined.

End MementoFacts.

Module MediatorFacts.
Import JS Mediator.

Example testHomeAutomationSystem_output :
  output (testHomeAutomationSystem no_effects) =
  [ "Light is ON";
    "Thermostat received message: Light: Light turned on";
    "Security Camera received message: Light: Light turned on";
    "Thermostat temperature increased";
    "Light received message: Thermostat: Temperature increased";
    "Security Camera received message: Thermostat: Temperature increased";
    "Security Camera started recording";
    "Light received message: SecurityCamera: Recording started";
    "Thermostat received message: SecurityCamera: Recording started" ].
Proof. vm_compute. reflexivity. Qed.

(** *** The broadcast loop *)

Lemma components_register_all (this : ConcreteHomeAutomationMediator)
    (cs : list Component) :
  components (register_all this cs) = components this ++ cs.
Proof.
  revert this. induction cs as [| c cs IH]; intros this; simpl.
  - by rewrite app_nil_r.
  - unfold register_all in *. simpl. rewrite IH. simpl. unfold push.
    by rewrite <- app_assoc.
Qed.

Lemma sendMessage_loop_deliveries (cs : list Component) (sender : Component)
    (message : string) (fx : effects) :
  deliveries (sendMessage_loop cs sender message fx)
  = deliveries fx ++
    ((fun c => (c, constructor_name sender +:+ ": " +:+ message))
       <$> filter (fun c => c <> sender) cs).
Proof.
  revert fx. induction cs as [| c cs IH]; intros fx; simpl.
  - by rewrite app_nil_r.
  - rewrite IH, filter_cons.
    destruct (decide (c <> sender)) as [Hc | Hc].
    + rewrite bool_decide_true by done. simpl. by rewrite <- app_assoc.
    + rewrite bool_decide_false by done. done.
Qed.

Lemma count_deliveries (cs : list Component) (sender c : Component)
    (text : string) :
  length (filter (fun d : Component * string => d.1 = c)
            ((fun x => (x, text)) <$> filter (fun x => x <> sender) cs))
  = if decide (c = sender) then 0%nat
    else length (filter (fun x => x = c) cs).
Proof.
  induction cs as [| x cs IH].
  - by destruct (decide (c = sender)).
  - rewrite (filter_cons (fun x => x <> sender)).
    rewrite (filter_cons (fun x => x = c)).
    destruct (decide (x <> sender)) as [Hx | Hx].
    + rewrite fmap_cons, filter_cons. cbn [fst].
      destruct (decide (x = c)) as [-> | Hxc].
      * cbn [length]. rewrite IH. rewrite !decide_False by done. done.
      * exact IH.
    + rewrite IH. destruct (decide (c = sender)) as [-> | Hcs]; [done |].
      rewrite decide_False; [done |].
      intros ->. apply Hx. intros ->. by apply Hcs.
Qed.

(** C7, as the code has it.  With components registered in some order, a
    send from [sender] calls [receiveMessage] on the registered components
    other than [sender], in registration order, each time with the text
    [<class name of sender>: <message>]; a component other than the sender
    receives once per registration (exactly once when registered once), and
    the sender itself receives nothing. *)
Theorem sendMessage_reaches_the_others (cs : list Component)
    (sender : Component) (message : string) :
  components (register_all ConcreteHomeAutomationMediator_new cs) = cs /\
  deliveries
    (sendMessage (register_all ConcreteHomeAutomationMediator_new cs)
       sender message no_effects)
  = ((fun c => (c, constructor_name sender +:+ ": " +:+ message))
       <$> filter (fun c => c <> sender) cs) /\
  (forall c, c <> sender ->
     received_by c
       (sendMessage (register_all ConcreteHomeAutomationMediator_new cs)
          sender message no_effects)
     = registrations c (register_all ConcreteHomeAutomationMediator_new cs))
  /\
  received_by sender
    (sendMessage (register_all ConcreteHomeAutomationMediator_new cs)
       sender message no_effects) = 0%nat.
Proof.
  assert (Hcs : components
                  (register_all ConcreteHomeAutomationMediator_new cs) = cs).
  { by rewrite components_register_all. }
  assert (Hd : deliveries
                 (sendMessage
                    (register_all ConcreteHomeAutomationMediator_new cs)
                    sender message no_effects)
               = ((fun c => (c, constructor_name sender +:+ ": " +:+ message))
                    <$> filter (fun c => c <> sender) cs)).
  { unfold sendMessage. rewrite Hcs, sendMessage_loop_deliveries. done. }
  split; [exact Hcs |]. split; [exact Hd |]. split.
  - intros c Hc. unfold received_by, registrations.
    rewrite Hd, Hcs, count_deliveries. by rewrite decide_False.
  - unfold received_by. rewrite Hd, count_deliveries.
    by rewrite decide_True.
Qed.

Lemma sendMessage_reaches_the_others_witness :
  the_thermostat <> the_light /\
  received_by the_thermostat
    (sendMessage
       (register_all ConcreteHomeAutomationMediator_new
          [the_light; the_thermostat; the_camera])
       the_light "Light turned on" no_effects)
  = registrations the_thermostat
      (register_all ConcreteHomeAutomationMediator_new
         [the_light; the_thermostat; the_camera]).
Proof.
  assert (Hne : the_thermostat <> the_light) by discriminate.
  split; [exact Hne |].
  exact (proj1 (proj2 (proj2
           (sendMessage_reaches_the_others
              [the_light; the_thermostat; the_camera]
              the_light "Light turned on"))) the_thermostat Hne).
Defined.

(** C7 as stated fails.  In the repository's own scenario the light is
    registered and sends: it is a registered listener and receives nothing,
    and the text delivered is not the message but the message after the
    sender's class name.  And a thermostat registered twice receives one
    send twice. *)
Lemma sender_is_skipped :
  the_light ∈ components
    (register_all ConcreteHomeAutomationMediator_new
       [the_light; the_thermostat; the_camera]) /\
  deliveries
    (sendMessage
       (register_all ConcreteHomeAutomationMediator_new
          [the_light; the_thermostat; the_camera])
       the_light "Light turned on" no_effects)
  = [ (the_thermostat, "Light: Light turned on");
      (the_camera, "Light: Light turned on") ] /\
  received_by the_thermostat
    (sendMessage
       (register_all ConcreteHomeAutomationMediator_new
          [the_light; the_thermostat; the_thermostat])
       the_light "Light turned on" no_effects) = 2%nat.
Proof.
  split; [| split].
  - vm_compute. apply list_elem_of_here.
  - vm_compute. reflexivity.
  - vm_compute. reflexivity.
Qed.

(** *** The console and the edge cases of a send *)

Lemma receiveMessage_line (c : Component) (message : string) (out : console) :
  receiveMessage c message out = out ++ [received_line c message].
Proof. unfold receiveMessage, received_line. by destruct (cls c). Qed.

Lemma sendMessage_loop_output (cs : list Component) (sender : Component)
    (message : string) (fx : effects) :
  output (sendMessage_loop cs sender message fx)
  = output fx ++
    ((fun c =>
        received_line c (constructor_name sender +:+ ": " +:+ message))
       <$> filter (fun c => c <> sender) cs).
Proof.
  revert fx. induction cs as [| c cs IH]; intros fx; simpl.
  - by rewrite app_nil_r.
  - rewrite IH, filter_cons.
    destruct (decide (c <> sender)) as [Hc | Hc].
    + rewrite bool_decide_true by done. simpl.
      rewrite receiveMessage_line. by rewrite <- app_assoc.
    + rewrite bool_decide_false by done. done.
Qed.

(** X4.
    What a send prints.  The console after a send is the console before it
    followed by one line per registered component other than the sender, in
    registration order: the receiver's own "... received message: " line
    with the sender's class name and the message.  Lines printed earlier are
    never changed. *)
Theorem sendMessage_prints_one_line_each
    (this : ConcreteHomeAutomationMediator) (sender : Component)
    (message : string) (fx : effects) :
  output (sendMessage this sender message fx)
  = output fx ++
    ((fun c =>
        received_line c (constructor_name sender +:+ ": " +:+ message))
       <$> filter (fun c => c <> sender) (components this)) /\
  length (output (sendMessage this sender message fx))
  = (length (output fx)
     + length (filter (fun c => c <> sender) (components this)))%nat /\
  (fun d => received_line d.1 d.2) <$>
    deliveries (sendMessage this sender message no_effects)
  = output (sendMessage this sender message no_effects).
Proof.
  unfold sendMessage. split; [| split].
  - apply sendMessage_loop_output.
  - rewrite sendMessage_loop_output, length_app, length_fmap. done.
  - rewrite sendMessage_loop_output, sendMessage_loop_deliveries. simpl.
    by rewrite <- list_fmap_compose.
Qed.

Lemma filter_others_all (cs : list Component) (sender : Component) :
  sender ∉ cs -> filter (fun c => c <> sender) cs = cs.
Proof.
  induction cs as [| c cs IH]; intros Hnot; [done |].
  apply not_elem_of_cons in Hnot as [Hne Hnot].
  rewrite filter_cons, decide_True by done. by rewrite IH.
Qed.

Lemma filter_others_none (cs : list Component) (sender : Component) :
  (forall c, c ∈ cs -> c = sender) ->
  filter (fun c => c <> sender) cs = [].
Proof.
  induction cs as [| c cs IH]; intros Hall; [done |].
  rewrite filter_cons, decide_False.
  - apply IH. intros x Hx. apply Hall. by apply list_elem_of_further.
  - intros Hne. apply Hne, Hall. apply list_elem_of_here.
Qed.

(** X5.
    A sender that is not registered reaches everybody: the send calls
    [receiveMessage] on every registered component, in registration order
    (sending does not require being registered). *)
Theorem unregistered_sender_reaches_all
    (this : ConcreteHomeAutomationMediator) (sender : Component)
    (message : string) (fx : effects) :
  sender ∉ components this ->
  deliveries (sendMessage this sender message fx)
  = deliveries fx ++
    ((fun c => (c, constructor_name sender +:+ ": " +:+ message))
       <$> components this) /\
  length (output (sendMessage this sender message fx))
  = (length (output fx) + length (components this))%nat.
Proof.
  intros Hnot. unfold sendMessage.
  rewrite sendMessage_loop_deliveries, sendMessage_loop_output.
  rewrite (filter_others_all _ _ Hnot).
  split; [done |]. by rewrite length_app, length_fmap.
Qed.

Lemma unregistered_sender_reaches_all_witness :
  (the_camera ∉ components
     (register_all ConcreteHomeAutomationMediator_new
        [the_light; the_thermostat])) /\
  deliveries
    (sendMessage
       (register_all ConcreteHomeAutomationMediator_new
          [the_light; the_thermostat])
       the_camera "Recording started" no_effects)
  = deliveries no_effects ++
    ((fun c =>
        (c, constructor_name the_camera +:+ ": " +:+ "Recording started"))
       <$> components
             (register_all ConcreteHomeAutomationMediator_new
                [the_light; the_thermostat])).
Proof.
  assert (Hnot : the_camera ∉ components
                   (register_all ConcreteHomeAutomationMediator_new
                      [the_light; the_thermostat])).
  { vm_compute. intros H. apply elem_of_cons in H as [H | H]; [done |].
    apply elem_of_cons in H as [H | H]; [done |].
    by apply elem_of_nil in H. }
  split; [exact Hnot |].
  exact (proj1 (unregistered_sender_reaches_all _ the_camera
                  "Recording started" no_effects Hnot)).
Defined.

(** X6.
    A send to nobody: when every registered component is the sender itself
    (in particular when none is registered), the send calls nothing and
    prints nothing. *)
Theorem send_to_nobody (this : ConcreteHomeAutomationMediator)
    (sender : Component) (message : string) (fx : effects) :
  (forall c, c ∈ components this -> c = sender) ->
  deliveries (sendMessage this sender message fx) = deliveries fx /\
  output (sendMessage this sender message fx) = output fx.
Proof.
  intros Hall. unfold sendMessage.
  rewrite sendMessage_loop_deliveries, sendMessage_loop_output.
  rewrite (filter_others_none _ _ Hall). simpl.
  by rewrite !app_nil_r.
Qed.

Lemma send_to_nobody_witness :
  (forall c,
     c ∈ components
           (register_all ConcreteHomeAutomationMediator_new
              [the_light; the_light]) ->
     c = the_light) /\
  output
    (sendMessage
       (register_all ConcreteHomeAutomationMediator_new
          [the_light; the_light])
       the_light "Light turned on" no_effects)
  = output no_effects.
Proof.
  assert (Hall : forall c,
            c ∈ components
                  (register_all ConcreteHomeAutomationMediator_new
                     [the_light; the_light]) ->
            c = the_light).
  { intros c H. vm_compute in H.
    apply elem_of_cons in H as [H | H]; [done |].
    apply elem_of_cons in H as [H | H]; [done |].
    by apply elem_of_nil in H. }
  split; [exact Hall |].
  exact (proj2 (send_to_nobody _ the_light "Light turned on" no_effects Hall)).
Defined.

End MediatorFacts.

Module SingletonFacts.
Import JS Singleton.

Example useLogger_output :
  useLogger Logger_initial [] =
  ({| instance := Some 0%nat; constructed := 1%nat |},
   ["[LOG] This message will be logged."; "[LOG] Another log entry."]).
Proof. reflexivity. Qed.

(** *** What every execution keeps true *)

Lemma do_step_at_most_one (e : execution) (s : step) :
  at_most_one e -> at_most_one (do_step e s).
Proof.
  unfold at_most_one. destruct s as [| this message]; simpl; [| done].
  unfold getInstance, Logger_new.
  destruct (instance (class_state e)) as [l |] eqn:E; simpl.
  - rewrite E. intros [Hc Hr]. split; [done |].
    intros x Hx. apply elem_of_app in Hx as [Hx | Hx]; [by apply Hr |].
    by apply list_elem_of_singleton in Hx.
  - intros [Hc Hr]. rewrite Hc, Hr. split; [done |].
    intros x Hx. by apply list_elem_of_singleton in Hx.
Qed.

Lemma do_step_keeps_instance (e : execution) (s : step) (l : Logger_ref) :
  instance (class_state e) = Some l ->
  instance (class_state (do_step e s)) = Some l.
Proof.
  intros E. destruct s; simpl; [| done].
  unfold getInstance. by rewrite E.
Qed.

Lemma do_step_sets_instance (e : execution) :
  is_Some (instance (class_state (do_step e GetInstance))).
Proof.
  simpl. unfold getInstance, Logger_new.
  destruct (instance (class_state e)) as [l |] eqn:E; simpl.
  - rewrite E. by eexists.
  - by eexists.
Qed.

Lemma foldl_at_most_one (steps : list step) (e : execution) :
  at_most_one e -> at_most_one (foldl do_step e steps).
Proof.
  revert e. induction steps as [| s steps IH]; intros e He; simpl.
  - done.
  - apply IH. by apply do_step_at_most_one.
Qed.

Lemma foldl_keeps_instance (steps : list step) (e : execution) :
  is_Some (instance (class_state e)) ->
  is_Some (instance (class_state (foldl do_step e steps))).
Proof.
  revert e. induction steps as [| s steps IH]; intros e He; simpl.
  - done.
  - apply IH. destruct He as [l Hl]. exists l.
    by apply do_step_keeps_instance.
Qed.

Lemma foldl_sets_instance (steps : list step) (e : execution) :
  GetInstance ∈ steps ->
  is_Some (instance (class_state (foldl do_step e steps))).
Proof.
  revert e. induction steps as [| s steps IH]; intros e Hin; simpl.
  - by apply elem_of_nil in Hin.
  - apply elem_of_cons in Hin as [<- | Hin].
    + apply foldl_keeps_instance, do_step_sets_instance.
    + by apply IH.
Qed.

(** C10.  In every execution of client code, starting with
    [Logger.instance = null]: at most one [Logger] is ever constructed; any
    two [getInstance()] calls returned the same object; and once
    [getInstance()] has been called, a further call returns that object
    again and constructs nothing (it leaves the class state as it was). *)
Theorem getInstance_is_a_singleton (steps : list step) :
  (constructed (class_state (execute steps)) <= 1)%nat /\
  (forall l1 l2,
     l1 ∈ returned (execute steps) -> l2 ∈ returned (execute steps) ->
     l1 = l2) /\
  (GetInstance ∈ steps ->
   exists l,
     (forall x, x ∈ returned (execute steps) -> x = l) /\
     constructed (class_state (execute steps)) = 1%nat /\
     getInstance (class_state (execute steps))
     = (l, class_state (execute steps))).
Proof.
  assert (Hinv : at_most_one (execute steps)).
  { apply foldl_at_most_one. unfold at_most_one. simpl. done. }
  unfold at_most_one in Hinv.
  split; [| split].
  - destruct (instance (class_state (execute steps)));
      destruct Hinv as [Hc _]; rewrite Hc; lia.
  - intros l1 l2 H1 H2.
    destruct (instance (class_state (execute steps))) as [l |].
    + destruct Hinv as [_ Hr]. by rewrite (Hr l1 H1), (Hr l2 H2).
    + destruct Hinv as [_ Hr]. rewrite Hr in H1.
      by apply elem_of_nil in H1.
  - intros Hin.
    destruct (foldl_sets_instance steps execution_start Hin) as [l Hl].
    fold (execute steps) in Hl. rewrite Hl in Hinv.
    destruct Hinv as [Hc Hr].
    exists l. split; [exact Hr |]. split; [exact Hc |].
    unfold getInstance. by rewrite Hl.
Qed.

Lemma getInstance_is_a_singleton_witness :
  GetInstance ∈ [GetInstance; Log 0%nat "This message will be logged.";
                 GetInstance; Log 0%nat "Another log entry."] /\
  exists l,
    (forall x,
       x ∈ returned
             (execute [GetInstance; Log 0%nat "This message will be logged.";
                       GetInstance; Log 0%nat "Another log entry."]) ->
       x = l) /\
    constructed
      (class_state
         (execute [GetInstance; Log 0%nat "This message will be logged.";
                   GetInstance; Log 0%nat "Another log entry."])) = 1%nat /\
    getInstance
      (class_state
         (execute [GetInstance; Log 0%nat "This message will be logged.";
                   GetInstance; Log 0%nat "Another log entry."]))
    = (l, class_state
            (execute [GetInstance; Log 0%nat "This message will be logged.";
                      GetInstance; Log 0%nat "Another log entry."])).
Proof.
  assert (Hin : GetInstance ∈
                [GetInstance; Log 0%nat "This message will be logged.";
                 GetInstance; Log 0%nat "Another log entry."]).
  { apply list_elem_of_here. }
  split; [exact Hin |].
  exact (proj2 (proj2
           (getInstance_is_a_singleton
              [GetInstance; Log 0%nat "This message will be logged.";
               GetInstance; Log 0%nat "Another log entry."])) Hin).
Defined.

(** *** What an execution leaves behind *)

Lemma foldl_out (steps : list step) (e : execution) :
  out (foldl do_step e steps) = out e ++ log_lines steps.
Proof.
  revert e. induction steps as [| s steps IH]; intros e; simpl.
  - by rewrite app_nil_r.
  - rewrite IH. destruct s as [| this message]; simpl.
    + by destruct (getInstance (class_state e)).
    + unfold log, console_log. by rewrite <- app_assoc.
Qed.

Lemma foldl_without_getInstance (steps : list step) (e : execution) :
  GetInstance ∉ steps ->
  class_state (foldl do_step e steps) = class_state e /\
  returned (foldl do_step e steps) = returned e.
Proof.
  revert e. induction steps as [| s steps IH]; intros e Hnot; simpl.
  - done.
  - apply not_elem_of_cons in Hnot as [Hne Hnot].
    destruct (IH (do_step e s) Hnot) as [-> ->].
    by destruct s.
Qed.

Lemma foldl_first_logger (steps : list step) (e : execution) (l : Logger_ref) :
  match instance (class_state e) with
  | Some x => x = 0%nat
  | None => constructed (class_state e) = 0%nat
  end ->
  instance (class_state (foldl do_step e steps)) = Some l -> l = 0%nat.
Proof.
  revert e. induction steps as [| s steps IH]; intros e He Hl; simpl in *.
  - rewrite Hl in He. done.
  - apply (IH (do_step e s)); [| done].
    destruct s as [| this message]; simpl; [| done].
    unfold getInstance, Logger_new.
    destruct (instance (class_state e)) as [x |] eqn:E; simpl.
    + by rewrite E.
    + done.
Qed.

(** X7.
    What client code leaves behind.  The console holds one "[LOG] " line per
    [log] call, in call order, whatever logger reference the call was made
    on, and [getInstance] prints nothing.  The class state depends only on
    whether [getInstance] was called: if it never was, [instance] is still
    [null] and nothing was constructed (logging constructs nothing); if it
    was, [instance] is the first logger and that is the only one. *)
Theorem execution_summary (steps : list step) :
  out (execute steps) = log_lines steps /\
  (GetInstance ∉ steps ->
   class_state (execute steps) = Logger_initial /\
   returned (execute steps) = []) /\
  (GetInstance ∈ steps ->
   class_state (execute steps)
   = {| instance := Some 0%nat; constructed := 1%nat |}).
Proof.
  split; [| split].
  - unfold execute. by rewrite foldl_out.
  - intros Hnot. by apply foldl_without_getInstance.
  - intros Hin.
    assert (Hinv : at_most_one (execute steps)).
    { apply foldl_at_most_one. unfold at_most_one. simpl. done. }
    destruct (foldl_sets_instance steps execution_start Hin) as [l Hl].
    fold (execute steps) in Hl. unfold at_most_one in Hinv.
    rewrite Hl in Hinv. destruct Hinv as [Hc Hr].
    assert (Hl0 : l = 0%nat).
    { apply (foldl_first_logger steps execution_start); [done | exact Hl]. }
    destruct (class_state (execute steps)) as [i c]. simpl in *.
    by rewrite Hl, Hc, Hl0.
Qed.

Lemma execution_summary_witness :
  GetInstance ∈ [GetInstance; Log 0%nat "This message will be logged.";
                 GetInstance; Log 0%nat "Another log entry."] /\
  class_state
    (execute [GetInstance; Log 0%nat "This message will be logged.";
              GetInstance; Log 0%nat "Another log entry."])
  = {| instance := Some 0%nat; constructed := 1%nat |}.
Proof.
  assert (Hin : GetInstance ∈
                [GetInstance; Log 0%nat "This message will be logged.";
                 GetInstance; Log 0%nat "Another log entry."]).
  { apply list_elem_of_here. }
  split; [exact Hin |].
  exact (proj2 (proj2
           (execution_summary
              [GetInstance; Log 0%nat "This message will be logged.";
               GetInstance; Log 0%nat "Another log entry."])) Hin).
Defined.

End SingletonFacts.

Module ObserverFacts.
Import JS Observer.

(** *** [indexOf] and [splice] *)

Lemma indexOf_lower_bound {A : Type} `{EqDecision A} (arr : list A) (x : A) :
  -1 <= indexOf arr x.
Proof.
  induction arr as [| y rest IH]; simpl; [lia |].
  case_bool_decide; [lia |].
  destruct (Z.eqb_spec (indexOf rest x) (-1)); lia.
Qed.

Lemma indexOf_absent {A : Type} `{EqDecision A} (arr : list A) (x : A) :
  x ∉ arr -> indexOf arr x = -1.
Proof.
  induction arr as [| y rest IH]; intros Hnot; simpl; [done |].
  apply not_elem_of_cons in Hnot as [Hne Hnot].
  rewrite bool_decide_false by congruence.
  by rewrite (IH Hnot).
Qed.

Lemma indexOf_first {A : Type} `{EqDecision A} (before after : list A)
    (x : A) :
  x ∉ before ->
  indexOf (before ++ x :: after) x = Z.of_nat (length before).
Proof.
  induction before as [| y before IH]; intros Hnot; simpl.
  - by rewrite bool_decide_true.
  - apply not_elem_of_cons in Hnot as [Hne Hnot].
    rewrite bool_decide_false by congruence.
    rewrite (IH Hnot).
    destruct (Z.eqb_spec (Z.of_nat (length before)) (-1)); lia.
Qed.

Lemma splice_one {A : Type} (before after : list A) (x : A) :
  splice (before ++ x :: after) (Z.of_nat (length before)) 1
  = before ++ after.
Proof.
  unfold splice.
  replace (Z.to_nat (Z.of_nat (length before) + 1))
    with (S (length before)) by lia.
  rewrite Nat2Z.id, take_app_length. f_equal.
  rewrite (cons_middle x before after), app_assoc.
  apply drop_app_length'. rewrite length_app. simpl. lia.
Qed.

Section SubjectFacts.

Context {number : Type}.
Context {Obs : Type} `{EqDecision Obs}.

Lemma removeObserver_absent (this : WeatherData (number := number))
    (observer : Obs) :
  observer ∉ observers this -> removeObserver this observer = this.
Proof.
  intros Hnot. unfold removeObserver.
  by rewrite (indexOf_absent _ _ Hnot).
Qed.

Lemma removeObserver_present (this : WeatherData (number := number))
    (observer : Obs) (before after : list Obs) :
  observers this = before ++ observer :: after ->
  observer ∉ before ->
  removeObserver this observer
  = {| observers := before ++ after; temperature := temperature this;
       humidity := humidity this; pressure := pressure this |}.
Proof.
  intros Hobs Hnot. unfold removeObserver.
  rewrite Hobs, (indexOf_first _ _ _ Hnot).
  destruct (Z.eqb_spec (Z.of_nat (length before)) (-1)) as [Heq | _]; [lia |].
  simpl. by rewrite splice_one.
Qed.

Lemma notify_loop_calls (os : list Obs) (t h p : number)
    (calls : list (update_call (number := number) (Obs := Obs))) :
  notify_loop os t h p calls
  = calls ++ ((fun o => (o, (t, h, p))) <$> os).
Proof.
  revert calls. induction os as [| o os IH]; intros calls; simpl.
  - by rewrite app_nil_r.
  - rewrite IH. by rewrite <- app_assoc.
Qed.

Lemma updates_to_fmap (o : Obs) (t h p : number) (os : list Obs) :
  updates_to o ((fun x => (x, (t, h, p))) <$> os)
  = length (filter (fun x => x = o) os).
Proof.
  unfold updates_to. induction os as [| x os IH]; [done |].
  rewrite fmap_cons, !filter_cons. cbn [fst].
  destruct (decide (x = o)); [cbn [length]; f_equal |]; exact IH.
Qed.

(** X8.
    [removeObserver] removes the first registration and nothing else.  If
    the observer is not registered the subject is unchanged.  If it is, with
    [before] the observers ahead of its first registration and [after] those
    behind it, the observers afterwards are [before] followed by [after]:
    everybody else keeps their place in the order, later registrations of
    the same observer stay, and the measurements are untouched. *)
Theorem removeObserver_removes_first_only
    (this : WeatherData (number := number)) (observer : Obs) :
  (observer ∉ observers this -> removeObserver this observer = this) /\
  (forall before after,
     observers this = before ++ observer :: after ->
     observer ∉ before ->
     observers (removeObserver this observer) = before ++ after /\
     temperature (removeObserver this observer) = temperature this /\
     humidity (removeObserver this observer) = humidity this /\
     pressure (removeObserver this observer) = pressure this) /\
  (observer ∈ observers this ->
   length (observers (removeObserver this observer))
   = pred (length (observers this))).
Proof.
  split; [apply removeObserver_absent | split].
  - intros before after Hobs Hnot.
    by rewrite (removeObserver_present this observer before after Hobs Hnot).
  - intros Hin.
    destruct (list_elem_of_split_l _ _ Hin) as (before & after & Hobs & Hnot).
    rewrite (removeObserver_present this observer before after Hobs Hnot).
    simpl. rewrite Hobs, !length_app. simpl. lia.
Qed.

(** X9.
    Notifications after a removal.  After [removeObserver(o)] a
    notification calls [update] on every other observer exactly as often as
    before, and on [o] once less than before: an observer that was
    registered twice is still notified once. *)
Theorem removeObserver_drops_one_notification
    (this : WeatherData (number := number)) (o o' : Obs) :
  updates_to o' (notifyObservers (removeObserver this o) [])
  = if decide (o' = o)
    then pred (updates_to o (notifyObservers this []))
    else updates_to o' (notifyObservers this []).
Proof.
  unfold notifyObservers. rewrite !notify_loop_calls. simpl.
  destruct (decide (o ∈ observers this)) as [Hin | Hnot].
  - destruct (list_elem_of_split_l _ _ Hin) as (before & after & Hobs & Hnb).
    rewrite (removeObserver_present this o before after Hobs Hnb). simpl.
    rewrite !updates_to_fmap, Hobs.
    rewrite !filter_app, !filter_cons, !length_app.
    destruct (decide (o' = o)) as [-> | Hne].
    + rewrite decide_True by done. simpl. lia.
    + rewrite decide_False by congruence. done.
  - rewrite (removeObserver_absent this o Hnot).
    destruct (decide (o' = o)) as [-> | Hne]; [| done].
    rewrite !updates_to_fmap.
    assert (Hnone : filter (fun x => x = o) (observers this) = []).
    { clear -Hnot. induction (observers this) as [| x l IH]; [done |].
      apply not_elem_of_cons in Hnot as [Hne Hnot].
      rewrite filter_cons, decide_False by congruence. by apply IH. }
    by rewrite Hnone.
Qed.

(** X10.
    [setMeasurements] stores the new values and then calls [update] on every
    registered observer, in registration order and once per registration,
    with the new values (not the ones stored before); the list of observers
    is unchanged. *)
Theorem setMeasurements_notifies_all
    (this : WeatherData (number := number)) (t h p : number)
    (calls : list (update_call (number := number) (Obs := Obs))) :
  (setMeasurements this t h p calls).2
  = calls ++ ((fun o => (o, (t, h, p))) <$> observers this) /\
  observers (setMeasurements this t h p calls).1 = observers this /\
  temperature (setMeasurements this t h p calls).1 = t /\
  humidity (setMeasurements this t h p calls).1 = h /\
  pressure (setMeasurements this t h p calls).1 = p /\
  (forall o,
     updates_to o (setMeasurements this t h p []).2
     = length (filter (fun x => x = o) (observers this))).
Proof.
  unfold setMeasurements, notifyObservers. simpl.
  rewrite !notify_loop_calls. simpl.
  repeat (split; [done |]).
  intros o. apply updates_to_fmap.
Qed.


End SubjectFacts.

Lemma removeObserver_removes_first_only_witness :
  [1%nat; 2%nat; 1%nat] = [] ++ 1%nat :: [2%nat; 1%nat] /\
  (1%nat ∉ @nil nat) /\
  observers
    (removeObserver
       {| observers := [1%nat; 2%nat; 1%nat]; temperature := 25;
          humidity := 65; pressure := 1013 |} 1%nat)
  = [] ++ [2%nat; 1%nat].
Proof.
  assert (Hobs : [1%nat; 2%nat; 1%nat] = [] ++ 1%nat :: [2%nat; 1%nat])
    by reflexivity.
  assert (Hnot : 1%nat ∉ @nil nat) by apply not_elem_of_nil.
  split; [exact Hobs |]. split; [exact Hnot |].
  exact (proj1
           (proj1 (proj2
              (removeObserver_removes_first_only
                 {| observers := [1%nat; 2%nat; 1%nat]; temperature := 25;
                    humidity := 65; pressure := 1013 |} 1%nat))
              [] [2%nat; 1%nat] Hobs Hnot)).
Defined.


(** For an observer that is already registered the round trip fails: the
    older registration goes and the new one stays, at the end. *)
Example register_then_remove_registered :
  observers
    (removeObserver
       (registerObserver
          {| observers := [1%nat; 2%nat]; temperature := 0; humidity := 0;
             pressure := 0 |} 1%nat) 1%nat)
  = [2%nat; 1%nat].
Proof. reflexivity. Qed.

End ObserverFacts.

Module IteratorFacts.
Import JS Iterator.

Lemma array_get_nat {A : Type} (arr : list A) (i : nat) :
  array_get arr (Z.of_nat i) = arr !! i.
Proof.
  unfold array_get. destruct (Z.ltb_spec (Z.of_nat i) 0); [lia |].
  by rewrite Nat2Z.id.
Qed.

Lemma iterateSongs_from (playlist : Playlist) (fuel pos : nat)
    (out : console) :
  (length (songs playlist) - pos < fuel)%nat ->
  iterateSongs fuel {| currentPosition := Z.of_nat pos |} playlist out
  = Some (Returned
            ({| currentPosition :=
                  Z.of_nat (Nat.max pos (length (songs playlist))) |},
             out ++
             ((fun song =>
                 "Now playing: " +:+ getTitle song +:+ " by "
                 +:+ getArtist song)
                <$> drop pos (songs playlist)))).
Proof.
  revert pos out. induction fuel as [| fuel IH]; intros pos out Hfuel;
    [lia |].
  cbn [iterateSongs]. unfold hasNext, next, getSongs. cbn [currentPosition].
  destruct (Z.ltb_spec (Z.of_nat pos) (Z.of_nat (length (songs playlist))))
    as [Hlt | Hge].
  - rewrite array_get_nat.
    destruct (lookup_lt_is_Some_2 (songs playlist) pos) as [song Hsong];
      [lia |].
    rewrite Hsong.
    replace (Z.of_nat pos + 1) with (Z.of_nat (S pos)) by lia.
    rewrite IH by lia.
    rewrite (drop_S _ _ _ Hsong). unfold console_log.
    rewrite fmap_cons, <- app_assoc. simpl.
    do 4 f_equal. lia.
  - rewrite drop_ge by lia. rewrite app_nil_r.
    do 4 f_equal. lia.
Qed.

(** X12.
    [iterateSongs] plays what is left and stops.  With the iterator at a
    position [pos >= 0] and a bound above the number of songs left, the loop
    returns (it does not throw), has printed one "Now playing" line for each
    song from index [pos] on, in playlist order, and leaves the iterator at
    the end of the playlist (or where it was, if that was beyond the end);
    in particular a fresh iterator plays the whole playlist, and a second
    run of the loop with the same iterator prints nothing. *)
Theorem iterateSongs_plays_the_rest (playlist : Playlist)
    (iterator : PlaylistIterator) (fuel : nat) (out : console) :
  0 <= currentPosition iterator ->
  (length (drop (Z.to_nat (currentPosition iterator)) (songs playlist))
   < fuel)%nat ->
  iterateSongs fuel iterator playlist out
  = Some (Returned
            ({| currentPosition :=
                  Z.max (currentPosition iterator)
                        (Z.of_nat (length (songs playlist))) |},
             out ++
             ((fun song =>
                 "Now playing: " +:+ getTitle song +:+ " by "
                 +:+ getArtist song)
                <$> drop (Z.to_nat (currentPosition iterator))
                      (songs playlist)))) /\
  (forall fuel' out',
     (0 < fuel')%nat ->
     iterateSongs fuel'
       {| currentPosition :=
            Z.max (currentPosition iterator)
                  (Z.of_nat (length (songs playlist))) |}
       playlist out'
     = Some (Returned
               ({| currentPosition :=
                     Z.max (currentPosition iterator)
                           (Z.of_nat (length (songs playlist))) |},
                out'))).
Proof.
  intros Hpos Hfuel. destruct iterator as [p]. cbn [currentPosition] in *.
  rewrite length_drop in Hfuel.
  split.
  - replace p with (Z.of_nat (Z.to_nat p)) at 1 by lia.
    rewrite iterateSongs_from by lia.
    do 4 f_equal. lia.
  - intros fuel' out' Hf.
    replace (Z.max p (Z.of_nat (length (songs playlist))))
      with (Z.of_nat (Z.to_nat (Z.max p (Z.of_nat (length (songs playlist))))))
      by lia.
    rewrite iterateSongs_from by lia.
    rewrite drop_ge by lia. rewrite app_nil_r.
    do 4 f_equal. lia.
Qed.

(** X13.
    [next()] at the end.  With the iterator exactly at the end of the
    playlist, [hasNext()] is false, and [next()] returns [undefined] and
    still moves the position.  A song added afterwards is seen by an
    iterator that stopped at the end ([hasNext()] is true again and [next()]
    returns the new song), but is skipped by one on which [next()] was
    called past the end. *)
Theorem next_past_the_end (playlist : Playlist) (iterator : PlaylistIterator)
    (song : Song) :
  currentPosition iterator = Z.of_nat (length (songs playlist)) ->
  hasNext iterator playlist = false /\
  next iterator playlist
  = (None, {| currentPosition := Z.of_nat (length (songs playlist)) + 1 |})
  /\
  hasNext iterator (addSong playlist song) = true /\
  (next iterator (addSong playlist song)).1 = Some song /\
  hasNext (next iterator playlist).2 (addSong playlist song) = false.
Proof.
  intros Hpos. destruct iterator as [p]. cbn [currentPosition] in *. subst p.
  unfold hasNext, next, addSong, getSongs, push.
  cbn [currentPosition songs fst snd].
  rewrite length_app. cbn [length].
  repeat split.
  - apply Z.ltb_ge. lia.
  - f_equal. rewrite array_get_nat. by apply lookup_ge_None_2.
  - apply Z.ltb_lt. lia.
  - rewrite array_get_nat. by apply list_lookup_middle.
  - apply Z.ltb_ge. lia.
Qed.

Lemma iterateSongs_plays_the_rest_witness :
  0 <= currentPosition
         (createIterator
            {| songs := [ {| title := "Song1"; artist := "Artist1" |};
                          {| title := "Song2"; artist := "Artist2" |} ] |}) /\
  iterateSongs 3
    (createIterator
       {| songs := [ {| title := "Song1"; artist := "Artist1" |};
                     {| title := "Song2"; artist := "Artist2" |} ] |})
    {| songs := [ {| title := "Song1"; artist := "Artist1" |};
                  {| title := "Song2"; artist := "Artist2" |} ] |} []
  = Some (Returned
            ({| currentPosition := 2 |},
             ["Now playing: Song1 by Artist1";
              "Now playing: Song2 by Artist2"])).
Proof.
  assert (Hpos : 0 <= currentPosition
                        (createIterator
                           {| songs := [ {| title := "Song1";
                                            artist := "Artist1" |};
                                         {| title := "Song2";
                                            artist := "Artist2" |} ] |})).
  { simpl. lia. }
  split; [exact Hpos |].
  refine (proj1
            (iterateSongs_plays_the_rest
               {| songs := [ {| title := "Song1"; artist := "Artist1" |};
                             {| title := "Song2"; artist := "Artist2" |} ] |}
               (createIterator
                  {| songs := [ {| title := "Song1"; artist := "Artist1" |};
                                {| title := "Song2"; artist := "Artist2" |} ]
                  |})
               3 [] Hpos _)).
  simpl. lia.
Defined.

Lemma next_past_the_end_witness :
  currentPosition {| currentPosition := 1 |}
  = Z.of_nat
      (length (songs {| songs := [ {| title := "Song1";
                                      artist := "Artist1" |} ] |})) /\
  hasNext
    (next {| currentPosition := 1 |}
       {| songs := [ {| title := "Song1"; artist := "Artist1" |} ] |}).2
    (addSong {| songs := [ {| title := "Song1"; artist := "Artist1" |} ] |}
       {| title := "Song2"; artist := "Artist2" |})
  = false.
Proof.
  assert (Hpos : currentPosition {| currentPosition := 1 |}
                 = Z.of_nat
                     (length (songs {| songs := [ {| title := "Song1";
                                                    artist := "Artist1" |} ]
                                    |}))) by reflexivity.
  split; [exact Hpos |].
  exact (proj2 (proj2 (proj2 (proj2
           (next_past_the_end
              {| songs := [ {| title := "Song1"; artist := "Artist1" |} ] |}
              {| currentPosition := 1 |}
              {| title := "Song2"; artist := "Artist2" |} Hpos))))).
Defined.

End IteratorFacts.

Module ProxyFacts.
Import JS Proxy.

Lemma display_loaded (n : nat) (real : RealImage) (name : string)
    (out : console) :
  displayImage_times n {| realImage := Some real; proxy_filename := name |}
    out
  = ({| realImage := Some real; proxy_filename := name |},
     out ++ replicate n ("Displaying image: " +:+ filename real)).
Proof.
  revert out. induction n as [| n IH]; intros out; simpl.
  - by rewrite app_nil_r.
  - rewrite IH. unfold RealImage_display, console_log.
    by rewrite <- app_assoc.
Qed.

(** X14.
    The proxy loads once, at the first display.  Creating a proxy loads
    nothing.  Displaying a new proxy [n >= 1] times prints
    "Loading image: <name>" once, before the first display, and
    "Displaying image: <name>" [n] times; afterwards the proxy holds the
    real image of that file name. *)
Theorem proxy_loads_once (name : string) (n : nat) (out : console) :
  displayImage_times 0 (ImageProxy_new name) out = (ImageProxy_new name, out)
  /\
  displayImage_times (S n) (ImageProxy_new name) out
  = ({| realImage := Some {| filename := name |}; proxy_filename := name |},
     out ++ ("Loading image: " +:+ name)
         :: replicate (S n) ("Displaying image: " +:+ name)).
Proof.
  split; [reflexivity |].
  cbn [displayImage_times]. unfold ImageProxy_display, ImageProxy_new.
  cbn [realImage proxy_filename]. unfold RealImage_new, loadImage.
  rewrite display_loaded. unfold RealImage_display, console_log.
  cbn [filename replicate]. by rewrite <- !app_assoc.
Qed.

End ProxyFacts.

Module DecoratorFacts.
Import Decorator.

Lemma fold_append_snoc (start : string) (parts : list string)
    (last : string) :
  foldl String.append start (parts ++ [last])
  = foldl String.append start parts +:+ last.
Proof. by rewrite foldl_app. Qed.

(** X15.
    The price of a coffee depends only on how many decorators of each class
    it is wrapped in, not on their order or on the flavors: 5 for the simple
    coffee, 2 for each milk, 1 for each sugar and 3 for each flavoring.  Its
    description is "Simple coffee" followed by what each decorator adds, in
    the order in which the decorators were applied. *)
Theorem cost_counts_decorators (coffee : Coffee) :
  cost coffee
  = 5 + 2 * Z.of_nat (milks coffee) + Z.of_nat (sugars coffee)
    + 3 * Z.of_nat (flavorings coffee) /\
  description coffee
  = foldl String.append "Simple coffee" (additions coffee).
Proof.
  induction coffee as [| c [IHc IHd] | c [IHc IHd] | c [IHc IHd] flavor];
    cbn [cost description milks sugars flavorings additions].
  - done.
  - split; [lia |]. by rewrite fold_append_snoc, IHd.
  - split; [lia |]. by rewrite fold_append_snoc, IHd.
  - split; [lia |]. by rewrite fold_append_snoc, IHd.
Qed.

End DecoratorFacts.
